(** * FormFiller: the VoiceClient component

    A shallow embedding of [frontend/src/components/VoiceClient.tsx]: the
    connection-state display, the router of inbound server messages into
    form state, and the connect / disconnect handlers.

    The React component keeps three pieces of state ([connectionState],
    [formFields], [formValues]) and one ref ([client.current]).  Every
    handler of the component is embedded as a computation over a [World]
    that holds exactly these, together with the traces of what the handler
    printed on the console and which methods it invoked on the Pipecat
    client.  The Pipecat client itself (transport, audio, framing) is an
    external library: it appears only as the source of callbacks and as the
    receiver of [connect] / [disconnect] calls. *)

From stdpp Require Import base strings gmap list.

Module VoiceClient.

(** ** Data model *)

(** [type ConnectionState = "idle" | "connecting" | "connected" | "error"] *)
Inductive ConnectionState := idle | connecting | connected | error.

#[global] Instance ConnectionState_eq_dec : EqDecision ConnectionState.
Proof. solve_decision. Defined.

(** [interface FormField { name: string; label: string; type: string }] *)
Record FormField := mkFormField {
  name : string;
  label : string;
  type : string
}.

#[global] Instance FormField_eq_dec : EqDecision FormField.
Proof. solve_decision. Defined.

(** The [payload] object of a server message.  The handler reads
    [payload.fields], [payload.field_name] and [payload.field_value]; a
    payload value carries these three properties at the types the component
    declares for its state ([FormField[]] and [string]).  Properties the
    handler does not read for a given message type are irrelevant. *)
Record Payload := mkPayload {
  fields : list FormField;
  field_name : string;
  field_value : string
}.

(** A server message, an object [{ type, payload }].  [message_type] is
    [None] when the [type] property is absent or is not a string (no [case]
    label can then be strictly equal to it); [message_payload] is [None] when
    the [payload] property is absent, so that reading a property of it
    throws. *)
Record Message := mkMessage {
  message_type : option string;
  message_payload : option Payload
}.

(** What the handlers print: one constructor per [console.log] /
    [console.error] call site, carrying the values printed. *)
Inductive LogEntry :=
| log_received (message : Message)
| log_opening_form (payload_fields : list FormField)
| log_updating_field (payload_field_name payload_field_value : string)
| log_form_submitted (values : gmap string string)
| log_unknown_type (type : option string) (payload : option Payload)
| error_connection_failed.

(** Methods the component invokes on the Pipecat client. *)
Inductive ClientCall :=
| call_connect (ws_url : string)
| call_disconnect.

#[global] Instance ClientCall_eq_dec : EqDecision ClientCall.
Proof. solve_decision. Defined.

(** The handle stored in [client.current]; its inside is the library's. *)
Inductive PipecatClient := new_PipecatClient.

(** The component instance.
    - [client_current] is the ref [client.current], [null] until the mount
      effect has run;
    - [connectionState], [formFields], [formValues] are the three [useState]
      cells ([formFields] is [FormField[] | null]; [formValues] is a
      [Record<string, string>]);
    - [NEXT_PUBLIC_PIPECAT_URL] is the environment variable read at render;
    - [console] and [calls] are the output so far, oldest first;
    - [pending] counts the [handleConnect] invocations suspended at their
      [await]. *)
Record World := mkWorld {
  client_current : option PipecatClient;
  connectionState : ConnectionState;
  formFields : option (list FormField);
  formValues : gmap string string;
  NEXT_PUBLIC_PIPECAT_URL : option string;
  console : list LogEntry;
  calls : list ClientCall;
  pending : nat
}.

(** ** Handlers as computations *)

Inductive Exn := TypeError.

(** A handler either returns or throws; either way it leaves a world. *)
Inductive Completion (A : Type) :=
| Return (a : A) (w : World)
| Throw (e : Exn) (w : World).
Arguments Return {A} a w.
Arguments Throw {A} e w.

Definition Eff (A : Type) : Type := World → Completion A.

Definition ret {A} (a : A) : Eff A := λ w, Return a w.

Definition bind {A B} (m : Eff A) (k : A → Eff B) : Eff B :=
  λ w, match m w with
       | Return a w' => k a w'
       | Throw e w' => Throw e w'
       end.

Notation "x <- m ;; k" := (bind m (λ x, k))
  (at level 100, m at next level, right associativity).
Notation "m ;; k" := (bind m (λ _, k))
  (at level 100, right associativity).

Definition world_of {A} (c : Completion A) : World :=
  match c with Return _ w => w | Throw _ w => w end.

Definition returns {A} (c : Completion A) : bool :=
  match c with Return _ _ => true | Throw _ _ => false end.

(** [useState] setters.  A setter takes a value or an updater function. *)
Inductive SetStateAction (A : Type) :=
| Value (a : A)
| Updater (f : A → A).
Arguments Value {A} a.
Arguments Updater {A} f.

Definition apply_action {A} (act : SetStateAction A) (prev : A) : A :=
  match act with Value a => a | Updater f => f prev end.

Definition setConnectionState (c : ConnectionState) : Eff unit :=
  λ w, Return tt
    (mkWorld (client_current w) c (formFields w) (formValues w)
             (NEXT_PUBLIC_PIPECAT_URL w) (console w) (calls w) (pending w)).

Definition setFormFields (f : option (list FormField)) : Eff unit :=
  λ w, Return tt
    (mkWorld (client_current w) (connectionState w) f (formValues w)
             (NEXT_PUBLIC_PIPECAT_URL w) (console w) (calls w) (pending w)).

Definition setFormValues (act : SetStateAction (gmap string string)) : Eff unit :=
  λ w, Return tt
    (mkWorld (client_current w) (connectionState w) (formFields w)
             (apply_action act (formValues w))
             (NEXT_PUBLIC_PIPECAT_URL w) (console w) (calls w) (pending w)).

(** [console.log(...)] and [console.error(...)]. *)
Definition console_log (entry : LogEntry) : Eff unit :=
  λ w, Return tt
    (mkWorld (client_current w) (connectionState w) (formFields w) (formValues w)
             (NEXT_PUBLIC_PIPECAT_URL w) (console w ++ [entry]) (calls w) (pending w)).

Definition console_error := console_log.

(** Reading a property of [payload]: a [TypeError] when there is no payload. *)
Definition prop {A} (payload : option Payload) (p : Payload → A) : Eff A :=
  λ w, match payload with
       | Some o => Return (p o) w
       | None => Throw TypeError w
       end.

(** [switch] compares with [===]. *)
Definition strict_eq (v : option string) (s : string) : bool :=
  bool_decide (v = Some s).

(** [process.env.NEXT_PUBLIC_PIPECAT_URL || "ws://localhost:8000/voice"]:
    the empty string is falsy as well. *)
Definition pipecatUrl (w : World) : string :=
  match NEXT_PUBLIC_PIPECAT_URL w with
  | Some u => if bool_decide (u = EmptyString) then "ws://localhost:8000/voice" else u
  | None => "ws://localhost:8000/voice"
  end.

(** The mount effect: [client.current = new PipecatClient({...})]. *)
Definition useEffect_mount : Eff unit :=
  λ w, Return tt
    (mkWorld (Some new_PipecatClient) (connectionState w) (formFields w)
             (formValues w) (NEXT_PUBLIC_PIPECAT_URL w) (console w) (calls w)
             (pending w)).

(** *** The callbacks given to the Pipecat client *)

Definition onConnected : Eff unit :=
  setConnectionState connected.

Definition onDisconnected : Eff unit :=
  setConnectionState idle ;;
  setFormFields None ;;
  setFormValues (Value ∅).

Definition onError : Eff unit :=
  setConnectionState error.

(** In the [submit_form] case the handler prints [formValues]: the callback
    was created by the mount effect (dependency array [[]]), so this is the
    binding of the first render, the initial [{}]. *)
Definition onServerMessage (message : Message) : Eff unit :=
  console_log (log_received message) ;;
  let type := message_type message in
  let payload := message_payload message in
  if strict_eq type "open_form" then
    payload_fields <- prop payload fields ;;
    console_log (log_opening_form payload_fields) ;;
    payload_fields <- prop payload fields ;;
    setFormFields (Some payload_fields) ;;
    setFormValues (Value ∅)
  else if strict_eq type "update_field" then
    payload_field_name <- prop payload field_name ;;
    payload_field_value <- prop payload field_value ;;
    console_log (log_updating_field payload_field_name payload_field_value) ;;
    setFormValues (Updater (λ prevValues,
      <[payload_field_name := payload_field_value]> prevValues))
  else if strict_eq type "submit_form" then
    console_log (log_form_submitted ∅) ;;
    setFormFields None ;;
    setFormValues (Value ∅)
  else
    console_log (log_unknown_type type payload).

(** *** The button handlers *)

(** [client.current.connect({ ws_url })]: the call is recorded and the
    caller is suspended at its [await]. *)
Definition client_connect (ws_url : string) : Eff unit :=
  λ w, Return tt
    (mkWorld (client_current w) (connectionState w) (formFields w) (formValues w)
             (NEXT_PUBLIC_PIPECAT_URL w) (console w)
             (calls w ++ [call_connect ws_url]) (S (pending w))).

(** [client.current?.disconnect()] *)
Definition client_disconnect : Eff unit :=
  λ w, match client_current w with
       | Some _ =>
           Return tt
             (mkWorld (client_current w) (connectionState w) (formFields w)
                      (formValues w) (NEXT_PUBLIC_PIPECAT_URL w) (console w)
                      (calls w ++ [call_disconnect]) (pending w))
       | None => Return tt w
       end.

(** [handleConnect], up to its [await]. *)
Definition handleConnect : Eff unit :=
  λ w, match client_current w with
       | None => Return tt w
       | Some _ =>
           (setConnectionState connecting ;;
            client_connect (pipecatUrl w)) w
       end.

(** How the awaited promise settles. *)
Inductive Settled := fulfilled | rejected.

(** [handleConnect], from its [await] on: nothing after the [try] when the
    promise is fulfilled, the [catch] block when it is rejected. *)
Definition handleConnect_resume (o : Settled) : Eff unit :=
  λ w,
    let w' := mkWorld (client_current w) (connectionState w) (formFields w)
                      (formValues w) (NEXT_PUBLIC_PIPECAT_URL w) (console w)
                      (calls w) (Nat.pred (pending w)) in
    match o with
    | fulfilled => Return tt w'
    | rejected =>
        (console_error error_connection_failed ;;
         setConnectionState error) w'
    end.

Definition handleDisconnect : Eff unit :=
  client_disconnect.

(** *** What is rendered of the button *)

Definition isConnected (w : World) : bool :=
  bool_decide (connectionState w = connected).

Definition isConnecting (w : World) : bool :=
  bool_decide (connectionState w = connecting).

Definition isFormActive (w : World) : bool :=
  bool_decide (formFields w ≠ None).

(** [onClick={isConnected ? handleDisconnect : handleConnect}] *)
Definition button_onClick (w : World) : Eff unit :=
  if isConnected w then handleDisconnect else handleConnect.

(** [disabled={isConnecting}] *)
Definition button_disabled (w : World) : bool :=
  isConnecting w.

(** A click on the button, as the browser delivers it. *)
Definition button_click : Eff unit :=
  λ w, if button_disabled w then Return tt w else button_onClick w w.

(** ** The component in its environment *)

(** What can happen to a mounted component: the mount effect runs, the user
    clicks the button, a pending [connect] promise settles, or the Pipecat
    client invokes one of the four callbacks. *)
Inductive Event :=
| ev_mount
| ev_click
| ev_connect_settled (o : Settled)
| ev_onConnected
| ev_onDisconnected
| ev_onError
| ev_onServerMessage (message : Message).

Definition handler (e : Event) : Eff unit :=
  match e with
  | ev_mount => useEffect_mount
  | ev_click => button_click
  | ev_connect_settled o => handleConnect_resume o
  | ev_onConnected => onConnected
  | ev_onDisconnected => onDisconnected
  | ev_onError => onError
  | ev_onServerMessage message => onServerMessage message
  end.

(** The mount effect runs once; a promise settles only if a [handleConnect]
    is waiting for it; callbacks come from the client, so only once it has
    been created. *)
Definition enabled (e : Event) (w : World) : bool :=
  match e with
  | ev_mount => bool_decide (client_current w = None)
  | ev_click => true
  | ev_connect_settled _ => bool_decide (0 < pending w)
  | ev_onConnected | ev_onDisconnected | ev_onError | ev_onServerMessage _ =>
      bool_decide (client_current w ≠ None)
  end.

(** An exception thrown by a callback propagates into the client library;
    the component keeps the state it had when the exception was thrown. *)
Definition step (e : Event) (w : World) : option World :=
  if enabled e w then Some (world_of (handler e w)) else None.

Fixpoint run (es : list Event) (w : World) : option World :=
  match es with
  | [] => Some w
  | e :: es' =>
      match step e w with
      | Some w' => run es' w'
      | None => None
      end
  end.

(** The first render: [useRef(null)], [useState("idle")], [useState(null)],
    [useState({})]. *)
Definition initial (env : option string) : World :=
  mkWorld None idle None ∅ env [] [] 0.

End VoiceClient.

(** * The earlier draft of the component

    A second copy of [VoiceClient.tsx] in the repository predates the one
    above.  Its callbacks [onConnected], [onDisconnected], [onError] and its
    [handleConnect] up to the [await] are the same text; it differs in the
    message router (no [default] case, fewer prints, the payload of an
    [update_field] read only inside the updater) and in the [catch] block
    of [handleConnect], which only prints. *)
Module VoiceClientDraft.
Import VoiceClient.

(** How the draft's message callback ends.  Its [update_field] case hands
    [setFormValues] an updater that reads [payload.field_name] and
    [payload.field_value] only when React runs it: with no payload the
    callback itself returns, having changed no state, and the [TypeError]
    is thrown from the updater when React next renders
    ([render_throws]). *)
Inductive Outcome :=
| returned (w : World)
| thrown (e : Exn) (w : World)
| render_throws (e : Exn) (w : World).

Definition outcome_of (c : Completion unit) : Outcome :=
  match c with
  | Return _ w => returned w
  | Throw e w => thrown e w
  end.

Definition onServerMessage (message : Message) (w : World) : Outcome :=
  let w1 := world_of (console_log (log_received message) w) in
  let type := message_type message in
  let payload := message_payload message in
  if strict_eq type "open_form" then
    outcome_of
      ((payload_fields <- prop payload fields ;;
        setFormFields (Some payload_fields) ;;
        setFormValues (Value ∅)) w1)
  else if strict_eq type "update_field" then
    match payload with
    | Some p =>
        outcome_of
          (setFormValues (Updater (λ prevValues,
             <[field_name p := field_value p]> prevValues)) w1)
    | None => render_throws TypeError w1
    end
  else if strict_eq type "submit_form" then
    outcome_of
      ((console_log (log_form_submitted ∅) ;;
        setFormFields None ;;
        setFormValues (Value ∅)) w1)
  else
    returned w1.

Definition handleConnect_resume (o : Settled) : Eff unit :=
  λ w,
    let w' := mkWorld (client_current w) (connectionState w) (formFields w)
                      (formValues w) (NEXT_PUBLIC_PIPECAT_URL w) (console w)
                      (calls w) (Nat.pred (pending w)) in
    match o with
    | fulfilled => Return tt w'
    | rejected => console_error error_connection_failed w'
    end.

End VoiceClientDraft.

(** * The specification's vocabulary *)

Import VoiceClient.

(** The three well-formed inbound events of the wire contract, as the
    messages that carry them.  The payload properties an event does not use
    are left arbitrary ([rest]). *)
Definition open_form (fs : list FormField) (rest : Payload) : Message :=
  mkMessage (Some "open_form")
            (Some (mkPayload fs (field_name rest) (field_value rest))).

Definition update_field (n v : string) (rest : Payload) : Message :=
  mkMessage (Some "update_field") (Some (mkPayload (fields rest) n v)).

Definition submit_form (payload : option Payload) : Message :=
  mkMessage (Some "submit_form") payload.

(** A message type that no [case] label matches. *)
Definition unrecognized (type : option string) : Prop :=
  type ≠ Some "open_form" ∧ type ≠ Some "update_field" ∧
  type ≠ Some "submit_form".

(** The transitions of the connection state machine as the specification
    lists them. *)
Definition table_transition (from to : ConnectionState) : bool :=
  match from, to with
  | idle, connecting => true
  | connecting, connected => true
  | connecting, error => true
  | connected, idle => true
  | connected, error => true
  | error, connecting => true
  | _, _ => false
  end.

(** The state an event kind writes into [connectionState], if any. *)
Definition writes (e : Event) : option ConnectionState :=
  match e with
  | ev_click => Some connecting
  | ev_connect_settled rejected => Some error
  | ev_onConnected => Some connected
  | ev_onDisconnected => Some idle
  | ev_onError => Some error
  | ev_mount | ev_connect_settled fulfilled | ev_onServerMessage _ => None
  end.


(** * What the component renders

    The JSX of [FormDisplay] and of [VoiceClient], reduced to what depends
    on props and state: the constant markup and styling are left out, the
    conditional blocks, the computed texts and the computed colours are
    kept. *)
Module Render.

(** The property names every object created by [{}] inherits from
    [Object.prototype]: reading one of them from [values] finds the
    inherited property when [values] has no own property of that name. *)
Definition Object_prototype : list string :=
  ["constructor"; "hasOwnProperty"; "isPrototypeOf"; "propertyIsEnumerable";
   "toLocaleString"; "toString"; "valueOf"; "__proto__";
   "__defineGetter__"; "__defineSetter__"; "__lookupGetter__";
   "__lookupSetter__"].

(** What [values[key]] evaluates to. *)
Inductive JsValue :=
| js_undefined
| js_string (s : string)
| js_inherited (key : string).

#[global] Instance JsValue_eq_dec : EqDecision JsValue.
Proof. solve_decision. Defined.

Definition get (values : gmap string string) (key : string) : JsValue :=
  match values !! key with
  | Some v => js_string v
  | None =>
      if bool_decide (key ∈ Object_prototype) then js_inherited key
      else js_undefined
  end.

(** Truthiness: [undefined] and the empty string are falsy, functions and
    objects are truthy. *)
Definition truthy (v : JsValue) : bool :=
  match v with
  | js_undefined => false
  | js_string s => negb (bool_decide (s = EmptyString))
  | js_inherited _ => true
  end.

(** [v || ''] *)
Definition or_empty (v : JsValue) : JsValue :=
  if truthy v then v else js_string EmptyString.

(** One [<label>] / [<input>] pair of [FormDisplay]. *)
Record Input := mkInput {
  key : string;
  input_label : string;
  input_type : string;
  value : JsValue;
  border : string;
  background : string
}.

(** [FormDisplay]'s output: the inputs, the two numbers of the
    "Completed: n of m fields" line, and the colours of the progress
    dots. *)
Record FormView := mkFormView {
  inputs : list Input;
  completed : nat;
  total : nat;
  dots : list string
}.

Definition FormDisplay (fields : list FormField)
    (values : gmap string string) : FormView :=
  mkFormView
    ((λ field,
        mkInput (name field) (label field) (type field)
          (or_empty (get values (name field)))
          (if truthy (get values (name field))
           then "1px solid #86efac" else "1px solid #d1d5db")
          (if truthy (get values (name field))
           then "#f0fdf4" else "#f9fafb")) <$> fields)
    (size values)
    (length fields)
    (imap (λ i _, if bool_decide (i < size values)
                  then "#4ade80" else "#d1d5db") fields).

(** [VoiceClient]'s output.  [formFields] is [null] or an array here, as
    [Payload] has it. *)
Record View := mkView {
  how_to_use : bool;
  status_dot : string;
  status_text : string;
  button_label : string;
  button_is_disabled : bool;
  button_cursor : string;
  button_background : string;
  error_message : bool;
  waiting : bool;
  form : option FormView
}.

Definition render (w : World) : View :=
  mkView
    (negb (isFormActive w))
    (if isConnected w then "#4ade80"
     else if isConnecting w then "#fbbf24"
     else if bool_decide (connectionState w = error) then "#ef4444"
     else "#9ca3af")
    (if bool_decide (connectionState w = idle) then "Ready to Connect"
     else if bool_decide (connectionState w = connecting) then "Connecting..."
     else if bool_decide (connectionState w = connected)
          then "Connected - Listening"
     else "Connection Error")
    (if isConnecting w then "Connecting..."
     else if isConnected w then "Disconnect" else "Connect")
    (button_disabled w)
    (if isConnecting w then "not-allowed" else "pointer")
    (if isConnecting w then "#eab308"
     else if isConnected w then "#ef4444" else "#3b82f6")
    (bool_decide (connectionState w = error))
    (isConnected w &&
     match formFields w with Some _ => false | None => true end)
    (match formFields w with
     | Some fields => Some (FormDisplay fields (formValues w))
     | None => None
     end).

End Render.

(** * Runs of the router *)

(** The server messages [ms] handled in arrival order, each from the state
    the previous one left. *)
Definition deliver (ms : list Message) (w : World) : World :=
  foldl (λ w message, world_of (onServerMessage message w)) w ms.

(** * Scenarios *)

Definition email_field : FormField := mkFormField "email" "Email" "email".
Definition no_payload : Payload := mkPayload [] EmptyString EmptyString.

Definition scenario_A : list Event :=
  [ev_mount; ev_click; ev_onConnected; ev_connect_settled fulfilled;
   ev_onServerMessage (open_form [email_field] no_payload)].

Definition scenario_B : list Event :=
  scenario_A ++ [ev_onServerMessage (update_field "email" "a@b.com" no_payload)].

Example scenario_A_result :
  run scenario_A (initial None) =
  Some (mkWorld (Some new_PipecatClient) connected (Some [email_field]) ∅ None
          [log_received (open_form [email_field] no_payload);
           log_opening_form [email_field]]
          [call_connect "ws://localhost:8000/voice"] 0).
Proof. reflexivity. Qed.

Example scenario_B_result :
  (λ w, (connectionState w, formFields w, formValues w)) <$>
    run scenario_B (initial None) =
  Some (connected, Some [email_field], {["email" := "a@b.com"]}).
Proof. reflexivity. Qed.

Example scenario_C_result :
  (λ w, (connectionState w, formFields w, formValues w)) <$>
    run (scenario_B ++ [ev_onServerMessage (submit_form None)]) (initial None) =
  Some (connected, None, ∅).
Proof. reflexivity. Qed.

Example scenario_D_result :
  (λ w, (connectionState w, formFields w, formValues w)) <$>
    run (scenario_B ++ [ev_onDisconnected]) (initial None) =
  Some (idle, None, ∅).
Proof. reflexivity. Qed.

Example scenario_E_result :
  connectionState <$>
    run [ev_mount; ev_click; ev_connect_settled rejected] (initial None) =
  Some error ∧
  connectionState <$>
    run [ev_mount; ev_click; ev_connect_settled rejected; ev_click]
        (initial None) =
  Some connecting.
Proof. split; reflexivity. Qed.

(** * The message router *)

Section Router.
Implicit Types (w : World) (message : Message) (p rest : Payload).

(** What each [case] of [onServerMessage] leaves behind, in full. *)

Lemma onServerMessage_open_form w fs rest :
  onServerMessage (open_form fs rest) w =
  Return tt
    (mkWorld (client_current w) (connectionState w) (Some fs) ∅
       (NEXT_PUBLIC_PIPECAT_URL w)
       ((console w ++ [log_received (open_form fs rest)])
          ++ [log_opening_form fs])
       (calls w) (pending w)).
Proof. reflexivity. Qed.

Lemma onServerMessage_update_field w n v rest :
  onServerMessage (update_field n v rest) w =
  Return tt
    (mkWorld (client_current w) (connectionState w) (formFields w)
       (<[n := v]> (formValues w))
       (NEXT_PUBLIC_PIPECAT_URL w)
       ((console w ++ [log_received (update_field n v rest)])
          ++ [log_updating_field n v])
       (calls w) (pending w)).
Proof. reflexivity. Qed.

Lemma onServerMessage_submit_form w payload :
  onServerMessage (submit_form payload) w =
  Return tt
    (mkWorld (client_current w) (connectionState w) None ∅
       (NEXT_PUBLIC_PIPECAT_URL w)
       ((console w ++ [log_received (submit_form payload)])
          ++ [log_form_submitted ∅])
       (calls w) (pending w)).
Proof. reflexivity. Qed.

Lemma strict_eq_false (v : option string) (s : string) :
  v ≠ Some s → strict_eq v s = false.
Proof. intros H. unfold strict_eq. by apply bool_decide_eq_false. Qed.

Lemma onServerMessage_default w message :
  unrecognized (message_type message) →
  onServerMessage message w =
  Return tt
    (mkWorld (client_current w) (connectionState w) (formFields w)
       (formValues w) (NEXT_PUBLIC_PIPECAT_URL w)
       ((console w ++ [log_received message])
          ++ [log_unknown_type (message_type message)
                               (message_payload message)])
       (calls w) (pending w)).
Proof.
  intros (Ho & Hu & Hs). unfold onServerMessage, bind.
  cbn [console_log].
  rewrite (strict_eq_false _ _ Ho), (strict_eq_false _ _ Hu),
    (strict_eq_false _ _ Hs).
  reflexivity.
Qed.

(** A message without payload whose case reads the payload throws before
    any setter has been called. *)
Lemma onServerMessage_no_payload w type :
  type = Some "open_form" ∨ type = Some "update_field" →
  onServerMessage (mkMessage type None) w =
  Throw TypeError
    (mkWorld (client_current w) (connectionState w) (formFields w)
       (formValues w) (NEXT_PUBLIC_PIPECAT_URL w)
       (console w ++ [log_received (mkMessage type None)])
       (calls w) (pending w)).
Proof. intros [-> | ->]; reflexivity. Qed.

(** No case of the router calls [setConnectionState]. *)
Lemma onServerMessage_connectionState w message :
  connectionState (world_of (onServerMessage message w)) = connectionState w.
Proof.
  destruct message as [type payload].
  unfold onServerMessage, bind; cbn.
  destruct (strict_eq type "open_form");
    [destruct payload; reflexivity |].
  destruct (strict_eq type "update_field");
    [destruct payload; reflexivity |].
  destruct (strict_eq type "submit_form"); reflexivity.
Qed.

End Router.

(** * The form reducer *)

(** C2.  The router implements the transition table of the form reducer:
    from every prior form definition and field values, [open_form(fields)]
    sets the definition to [fields] and empties the values; [update_field
    (name, value)] sets key [name] to [value] in the values (inserting or
    overwriting) and keeps the definition; [submit_form] makes the
    definition absent and empties the values.  Each of the three returns
    normally. *)
Theorem form_reducer_transition_table :
  ∀ (w : World) (fs : list FormField) (n v : string) (rest : Payload)
    (payload : option Payload),
    (let c := onServerMessage (open_form fs rest) w in
     returns c = true ∧
     formFields (world_of c) = Some fs ∧ formValues (world_of c) = ∅) ∧
    (let c := onServerMessage (update_field n v rest) w in
     returns c = true ∧
     formFields (world_of c) = formFields w ∧
     formValues (world_of c) = <[n := v]> (formValues w) ∧
     formValues (world_of c) !! n = Some v) ∧
    (let c := onServerMessage (submit_form payload) w in
     returns c = true ∧
     formFields (world_of c) = None ∧ formValues (world_of c) = ∅).
Proof.
  intros w fs n v rest payload.
  rewrite onServerMessage_open_form, onServerMessage_update_field,
    onServerMessage_submit_form.
  cbn. repeat split; try reflexivity.
  apply lookup_insert_eq.
Qed.

(** C7.  [update_field] is idempotent: handling the same [update_field
    (name, value)] message twice in succession leaves the same field values
    as handling it once. *)
Theorem update_field_idempotent :
  ∀ (w : World) (n v : string) (rest : Payload),
    let once := world_of (onServerMessage (update_field n v rest) w) in
    let twice := world_of (onServerMessage (update_field n v rest) once) in
    formValues twice = formValues once.
Proof.
  intros w n v rest. cbn zeta.
  rewrite !onServerMessage_update_field. cbn.
  apply insert_insert_eq.
Qed.

(** C8.  [update_field(name, value)] is accepted for every field name and
    every state: whether or not a form is open and whether or not [name]
    occurs in it, the handler returns normally, the entry is stored, the
    form definition and the connection state are as before, and the field
    values are the previous ones with exactly that key set. *)
Theorem update_field_stored_unconditionally :
  ∀ (w : World) (n v : string) (rest : Payload),
    let c := onServerMessage (update_field n v rest) w in
    returns c = true ∧
    formValues (world_of c) !! n = Some v ∧
    formValues (world_of c) = <[n := v]> (formValues w) ∧
    formFields (world_of c) = formFields w ∧
    connectionState (world_of c) = connectionState w.
Proof.
  intros w n v rest. cbn zeta.
  rewrite onServerMessage_update_field. cbn.
  repeat split. apply lookup_insert_eq.
Qed.

(** The two cases the claim singles out, at concrete inputs: no form open,
    and a form open that has no field of that name. *)
Example update_field_without_form :
  let w := initial None in
  let w' := world_of (onServerMessage (update_field "phone" "555" no_payload) w) in
  formFields w = None ∧ formFields w' = None ∧
  formValues w' = {["phone" := "555"]}.
Proof. repeat split. Qed.

Example update_field_unknown_name :
  let w := mkWorld (Some new_PipecatClient) connected (Some [email_field]) ∅
                   None [] [] 0 in
  let w' := world_of (onServerMessage (update_field "phone" "555" no_payload) w) in
  formFields w' = Some [email_field] ∧
  formValues w' !! "phone" = Some "555".
Proof. split; reflexivity. Qed.

(** C9.  Frame: no server message, whatever its type and payload, changes
    the connection state; and an [update_field(name, value)] leaves every
    key of the field values other than [name] at its previous value (absent
    keys stay absent). *)
Theorem server_message_frame :
  ∀ (w : World) (message : Message) (n v k : string) (rest : Payload),
    k ≠ n →
    connectionState (world_of (onServerMessage message w)) = connectionState w ∧
    formValues (world_of (onServerMessage (update_field n v rest) w)) !! k =
      formValues w !! k.
Proof.
  intros w message n v k rest Hk. split.
  - apply onServerMessage_connectionState.
  - rewrite onServerMessage_update_field. cbn.
    by apply lookup_insert_ne.
Qed.

Lemma server_message_frame_witness :
  let w := mkWorld (Some new_PipecatClient) connected (Some [email_field])
                   {["email" := "a@b.com"]} None [] [] 0 in
  "email" ≠ "phone" ∧
  connectionState (world_of (onServerMessage (submit_form None) w)) = connected ∧
  formValues
    (world_of (onServerMessage (update_field "phone" "555" no_payload) w))
    !! "email" = Some "a@b.com".
Proof.
  assert (Hk : "email" ≠ "phone") by discriminate.
  split; [exact Hk |].
  destruct (server_message_frame
              (mkWorld (Some new_PipecatClient) connected (Some [email_field])
                       {["email" := "a@b.com"]} None [] [] 0)
              (submit_form None) "phone" "555" "email" no_payload Hk)
    as [Hconn Hother].
  split; [exact Hconn | rewrite Hother; reflexivity].
Defined.

(** C6.  A message whose [type] is none of [open_form], [update_field],
    [submit_form] is printed and dropped: the handler returns normally, the
    connection state, the form definition and the field values are
    unchanged, nothing is called on the client, and the console has gained
    the message and the unknown-type line. *)
Theorem unrecognized_message_discarded :
  ∀ (w : World) (message : Message),
    unrecognized (message_type message) →
    let c := onServerMessage message w in
    returns c = true ∧
    connectionState (world_of c) = connectionState w ∧
    formFields (world_of c) = formFields w ∧
    formValues (world_of c) = formValues w ∧
    calls (world_of c) = calls w ∧
    console (world_of c) =
      (console w ++ [log_received message])
        ++ [log_unknown_type (message_type message) (message_payload message)].
Proof.
  intros w message Hu. cbn zeta.
  rewrite (onServerMessage_default _ _ Hu). cbn.
  repeat split.
Qed.

Lemma unrecognized_message_discarded_witness :
  let w := mkWorld (Some new_PipecatClient) connected (Some [email_field])
                   {["email" := "a@b.com"]} None [] [] 0 in
  let c := onServerMessage (mkMessage (Some "close_form") None) w in
  unrecognized (Some "close_form") ∧
  returns c = true ∧
  connectionState (world_of c) = connected ∧
  formFields (world_of c) = Some [email_field] ∧
  formValues (world_of c) = {["email" := "a@b.com"]}.
Proof.
  assert (Hu : unrecognized (Some "close_form"))
    by (repeat split; discriminate).
  split; [exact Hu |].
  pose proof (unrecognized_message_discarded
                (mkWorld (Some new_PipecatClient) connected (Some [email_field])
                         {["email" := "a@b.com"]} None [] [] 0)
                (mkMessage (Some "close_form") None) Hu) as H.
  cbn zeta in H. destruct H as (H1 & H2 & H3 & H4 & _).
  repeat split; assumption.
Defined.

(** The earlier draft has no [default] case: it prints the message on
    arrival and does nothing more. *)
Lemma draft_unrecognized_message_discarded (w : World) (message : Message) :
  unrecognized (message_type message) →
  VoiceClientDraft.onServerMessage message w =
  VoiceClientDraft.returned
    (mkWorld (client_current w) (connectionState w) (formFields w)
       (formValues w) (NEXT_PUBLIC_PIPECAT_URL w)
       (console w ++ [log_received message]) (calls w) (pending w)).
Proof.
  intros (Ho & Hu & Hs). unfold VoiceClientDraft.onServerMessage.
  rewrite (strict_eq_false _ _ Ho), (strict_eq_false _ _ Hu),
    (strict_eq_false _ _ Hs).
  reflexivity.
Qed.

(** * The connection state *)

Section Connection.
Implicit Types (w : World) (e : Event) (o : Settled).

Lemma handleConnect_no_client w :
  client_current w = None → handleConnect w = Return tt w.
Proof. intros H. unfold handleConnect. by rewrite H. Qed.

Lemma handleConnect_client w :
  client_current w ≠ None →
  handleConnect w =
  Return tt
    (mkWorld (client_current w) connecting (formFields w) (formValues w)
       (NEXT_PUBLIC_PIPECAT_URL w) (console w)
       (calls w ++ [call_connect (pipecatUrl w)]) (S (pending w))).
Proof.
  intros H. unfold handleConnect.
  destruct (client_current w) eqn:Hc; [| congruence].
  cbn. by rewrite Hc.
Qed.


Lemma handleDisconnect_frame w :
  let w' := world_of (handleDisconnect w) in
  returns (handleDisconnect w) = true ∧
  connectionState w' = connectionState w ∧
  formFields w' = formFields w ∧ formValues w' = formValues w ∧
  (calls w' = calls w ∨ calls w' = calls w ++ [call_disconnect]).
Proof.
  unfold handleDisconnect, client_disconnect.
  destruct (client_current w); cbn; repeat split; auto.
Qed.

(** The button: disabled while connecting, disconnect while connected,
    connect otherwise. *)
Lemma button_click_cases w :
  button_click w =
  match connectionState w with
  | connecting => Return tt w
  | connected => handleDisconnect w
  | idle | error => handleConnect w
  end.
Proof.
  unfold button_click, button_disabled, button_onClick, isConnecting,
    isConnected.
  destruct (connectionState w); reflexivity.
Qed.

Lemma step_inv e w w' :
  step e w = Some w' → enabled e w = true ∧ w' = world_of (handler e w).
Proof.
  unfold step. destruct (enabled e w); [| discriminate].
  intros [= <-]. done.
Qed.

(** The form state after a step that is not a server message or a
    disconnected notification. *)
Lemma step_form_frame e w w' :
  step e w = Some w' →
  (∀ message, e ≠ ev_onServerMessage message) → e ≠ ev_onDisconnected →
  formFields w' = formFields w ∧ formValues w' = formValues w.
Proof.
  intros [_ ->]%step_inv Hm Hd.
  destruct e as [| | o | | | | message]; cbn [handler].
  - done.
  - rewrite button_click_cases. destruct (connectionState w); try done.
    + unfold handleConnect. by destruct (client_current w).
    + pose proof (handleDisconnect_frame w) as H. cbn zeta in H. tauto.
    + unfold handleConnect. by destruct (client_current w).
  - by destruct o.
  - done.
  - congruence.
  - done.
  - by destruct (Hm message).
Qed.

(** The connection state after a step. *)
Lemma step_connectionState e w w' :
  step e w = Some w' →
  connectionState w' = connectionState w ∨
  (writes e = Some (connectionState w') ∧
   (e = ev_click → connectionState w = idle ∨ connectionState w = error)).
Proof.
  intros [_ ->]%step_inv.
  destruct e as [| | o | | | | message]; cbn [handler].
  - by left.
  - rewrite button_click_cases.
    destruct (connectionState w) eqn:Hc.
    + unfold handleConnect.
      destruct (client_current w); cbn; [right | left]; auto.
    + by left.
    + left. pose proof (handleDisconnect_frame w) as H. cbn zeta in H.
      rewrite Hc in H. tauto.
    + unfold handleConnect.
      destruct (client_current w); cbn; [right | left]; auto.
  - destruct o; [by left | right]. split; [done | discriminate].
  - right. split; [done | discriminate].
  - right. split; [done | discriminate].
  - right. split; [done | discriminate].
  - left. apply onServerMessage_connectionState.
Qed.



End Connection.

(** ** Leaving [connected] *)

(** C1, as it holds.  When a step takes the connection state from
    [connected] to [idle] (the disconnected notification: disconnect or
    transport close), the form definition becomes absent and the field
    values empty.  When a step takes it from [connected] to [error] (the
    error notification, or a rejected connect), the form definition and the
    field values are left exactly as they were. *)
Theorem leaving_connected_form_state :
  ∀ (e : Event) (w w' : World),
    step e w = Some w' →
    connectionState w = connected →
    (connectionState w' = idle →
       formFields w' = None ∧ formValues w' = ∅) ∧
    (connectionState w' = error →
       formFields w' = formFields w ∧ formValues w' = formValues w).
Proof.
  intros e w w' Hstep Hc.
  pose proof (step_connectionState _ _ _ Hstep) as Hconn.
  split; intros Hc'.
  - destruct Hconn as [Hsame | [Hw _]]; [congruence |].
    rewrite Hc' in Hw.
    destruct e as [| | [] | | | |]; try discriminate Hw.
    apply step_inv in Hstep as [_ ->]. done.
  - destruct Hconn as [Hsame | [Hw _]]; [congruence |].
    rewrite Hc' in Hw.
    apply (step_form_frame _ _ _ Hstep).
    + intros message ->. discriminate Hw.
    + intros ->. discriminate Hw.
Qed.

Lemma leaving_connected_form_state_witness :
  let w := mkWorld (Some new_PipecatClient) connected (Some [email_field])
                   {["email" := "a@b.com"]} None [] [] 0 in
  let w' := mkWorld (Some new_PipecatClient) idle None ∅ None [] [] 0 in
  step ev_onDisconnected w = Some w' ∧
  connectionState w = connected ∧
  connectionState w' = idle ∧
  formFields w' = None ∧ formValues w' = ∅.
Proof.
  split; [reflexivity |]. split; [reflexivity |]. split; [reflexivity |].
  exact (proj1 (leaving_connected_form_state ev_onDisconnected
                  (mkWorld (Some new_PipecatClient) connected
                           (Some [email_field]) {["email" := "a@b.com"]}
                           None [] [] 0)
                  (mkWorld (Some new_PipecatClient) idle None ∅ None [] [] 0)
                  eq_refl eq_refl) eq_refl).
Defined.

(** C1, as the specification words it, fails: after scenario B (connected,
    a form open, one field filled) the error notification moves the
    connection state to [error] and the form is still there. *)
Lemma form_outlives_error :
  ¬ (∀ (es : list Event) (e : Event) (w w' : World),
       run es (initial None) = Some w →
       connectionState w = connected → formFields w ≠ None →
       step e w = Some w' →
       connectionState w' = idle ∨ connectionState w' = error →
       formFields w' = None ∧ formValues w' = ∅).
Proof.
  intros H.
  pose (w := mkWorld (Some new_PipecatClient) connected (Some [email_field])
               {["email" := "a@b.com"]} None
               [log_received (open_form [email_field] no_payload);
                log_opening_form [email_field];
                log_received (update_field "email" "a@b.com" no_payload);
                log_updating_field "email" "a@b.com"]
               [call_connect "ws://localhost:8000/voice"] 0).
  assert (Hrun : run scenario_B (initial None) = Some w) by reflexivity.
  assert (Hstep : step ev_onError w = Some (world_of (onError w)))
    by reflexivity.
  destruct (H scenario_B ev_onError w (world_of (onError w)) Hrun eq_refl)
    as [Hfields _].
  - discriminate.
  - exact Hstep.
  - by right.
  - discriminate Hfields.
Qed.

(** ** Connecting *)

(** C10.  Invoked while [client.current] is still [null], [handleConnect]
    returns at once and changes nothing: the connection state is not set to
    [connecting], nothing is printed, nothing is called.  The same holds for
    a click on the button in the first render. *)
Theorem handleConnect_null_client :
  ∀ w : World,
    client_current w = None →
    handleConnect w = Return tt w ∧
    connectionState (world_of (handleConnect w)) = connectionState w ∧
    (connectionState w = idle → button_click w = Return tt w).
Proof.
  intros w H. rewrite (handleConnect_no_client _ H).
  repeat split.
  intros Hc. rewrite button_click_cases, Hc.
  by apply handleConnect_no_client.
Qed.

Lemma handleConnect_null_client_witness :
  client_current (initial None) = None ∧
  handleConnect (initial None) = Return tt (initial None) ∧
  connectionState (world_of (handleConnect (initial None))) = idle ∧
  (idle = idle → button_click (initial None) = Return tt (initial None)).
Proof.
  split; [reflexivity |].
  exact (handleConnect_null_client (initial None) eq_refl).
Defined.

(** The earlier draft only prints in its [catch] block: a rejected connect
    leaves the connection state as it finds it. *)
Lemma draft_connect_failure_keeps_state (w : World) :
  VoiceClientDraft.handleConnect_resume rejected w =
  Return tt
    (mkWorld (client_current w) (connectionState w) (formFields w)
       (formValues w) (NEXT_PUBLIC_PIPECAT_URL w)
       (console w ++ [error_connection_failed]) (calls w)
       (Nat.pred (pending w))).
Proof. reflexivity. Qed.

(** C4.  [connect()] while the connection state is [connecting] or
    [connected].  Through the button the call is ignored: while connecting
    the button is disabled and a click changes nothing; while connected a
    click runs [handleDisconnect], which leaves the connection state and
    the form alone and asks the client for nothing but a disconnect.
    [handleConnect] itself, were it invoked in these states, is a
    superseding call: it returns normally, and either changes nothing (no
    client) or sets [connecting], keeps the form, and asks the client to
    connect once more; however that attempt settles, the handler returns
    normally with the state [connecting] or [error]. *)
Theorem reentrant_connect :
  ∀ (w : World) (o : Settled),
    connectionState w = connecting ∨ connectionState w = connected →
    (connectionState w = connecting → button_click w = Return tt w) ∧
    (connectionState w = connected →
       button_click w = handleDisconnect w ∧
       returns (button_click w) = true ∧
       connectionState (world_of (button_click w)) = connected ∧
       (calls (world_of (button_click w)) = calls w ∨
        calls (world_of (button_click w)) = calls w ++ [call_disconnect])) ∧
    (let c := handleConnect w in
     returns c = true ∧
     formFields (world_of c) = formFields w ∧
     formValues (world_of c) = formValues w ∧
     (world_of c = w ∨
      (connectionState (world_of c) = connecting ∧
       calls (world_of c) = calls w ++ [call_connect (pipecatUrl w)])) ∧
     let r := handleConnect_resume o (world_of c) in
     returns r = true ∧
     (connectionState (world_of r) = connectionState (world_of c) ∨
      connectionState (world_of r) = error)).
Proof.
  intros w o _. split; [| split].
  - intros Hc. by rewrite button_click_cases, Hc.
  - intros Hc. rewrite button_click_cases, Hc.
    pose proof (handleDisconnect_frame w) as H. cbn zeta in H.
    rewrite Hc in H. tauto.
  - cbn zeta. destruct (client_current w) eqn:Hclient.
    + rewrite handleConnect_client by congruence. cbn [returns world_of].
      repeat split; try done.
      * right. done.
      * by destruct o.
      * destruct o; [left | right]; reflexivity.
    + rewrite handleConnect_no_client by done. cbn [returns world_of].
      repeat split; try done.
      * by left.
      * by destruct o.
      * destruct o; [left | right]; reflexivity.
Qed.

Lemma reentrant_connect_witness :
  let w := mkWorld (Some new_PipecatClient) connected (Some [email_field])
                   {["email" := "a@b.com"]} None [] [] 0 in
  connectionState w = connected ∧
  button_click w = handleDisconnect w ∧
  connectionState (world_of (button_click w)) = connected ∧
  returns (handleConnect w) = true ∧
  formFields (world_of (handleConnect w)) = Some [email_field].
Proof.
  split; [reflexivity |].
  pose proof (reentrant_connect
                (mkWorld (Some new_PipecatClient) connected
                         (Some [email_field]) {["email" := "a@b.com"]}
                         None [] [] 0)
                rejected (or_intror eq_refl)) as (_ & Hbutton & Hconnect).
  destruct (Hbutton eq_refl) as (H1 & _ & H3 & _).
  cbn zeta in Hconnect. destruct Hconnect as (H4 & H5 & _).
  repeat split; assumption.
Defined.

(** ** The state machine *)

(** Each transition of the table is taken by some step from a world the
    component reaches. *)
Lemma table_transitions_taken (a b : ConnectionState) :
  table_transition a b = true →
  ∃ (es : list Event) (e : Event) (w w' : World),
    run es (initial None) = Some w ∧ step e w = Some w' ∧
    connectionState w = a ∧ connectionState w' = b.
Proof.
  destruct a, b; try discriminate; intros _.
  - exists [ev_mount], ev_click. by eexists _, _.
  - exists [ev_mount; ev_click], ev_onConnected. by eexists _, _.
  - exists [ev_mount; ev_click], (ev_connect_settled rejected).
    by eexists _, _.
  - exists [ev_mount; ev_click; ev_onConnected], ev_onDisconnected.
    by eexists _, _.
  - exists [ev_mount; ev_click; ev_onConnected], ev_onError.
    by eexists _, _.
  - exists [ev_mount; ev_click; ev_connect_settled rejected], ev_click.
    by eexists _, _.
Qed.

(** C5, as it holds.  The connection state is always one of [idle],
    [connecting], [connected], [error], and every step sets it as its event
    says: the connected notification sets [connected], the disconnected
    notification [idle], the error notification and a rejected connect
    [error], each whatever the state before (no guard on the current
    state); a click on the button sets [connecting] when the state is
    [idle] or [error] and the client exists, and leaves the state as it is
    otherwise; the mount effect, a fulfilled connect and server messages
    leave it as it is.  Once the client exists, the three notifications
    and the click can occur in every state.  Each of the six transitions of
    the table is taken by some step from a state the component reaches. *)
Theorem connectionState_transitions :
  (∀ (e : Event) (w w' : World),
     step e w = Some w' →
     connectionState w' ∈ [idle; connecting; connected; error] ∧
     connectionState w' =
       match e with
       | ev_onConnected => connected
       | ev_onDisconnected => idle
       | ev_onError | ev_connect_settled rejected => error
       | ev_click =>
           match connectionState w, client_current w with
           | idle, Some _ | error, Some _ => connecting
           | _, _ => connectionState w
           end
       | ev_mount | ev_connect_settled fulfilled | ev_onServerMessage _ =>
           connectionState w
       end) ∧
  (∀ w : World,
     client_current w ≠ None →
     is_Some (step ev_onConnected w) ∧ is_Some (step ev_onDisconnected w) ∧
     is_Some (step ev_onError w) ∧ is_Some (step ev_click w)) ∧
  (∀ a b : ConnectionState,
     table_transition a b = true →
     ∃ (es : list Event) (e : Event) (w w' : World),
       run es (initial None) = Some w ∧ step e w = Some w' ∧
       connectionState w = a ∧ connectionState w' = b).
Proof.
  split; [| split].
  - intros e w w' Hstep. split.
    { destruct (connectionState w'); set_solver. }
    apply step_inv in Hstep as [_ ->].
    destruct e as [| | o | | | | message]; cbn [handler]; try done.
    + rewrite button_click_cases.
      destruct (connectionState w) eqn:Hc; try done.
      * unfold handleConnect. by destruct (client_current w).
      * pose proof (handleDisconnect_frame w) as H. cbn zeta in H.
        rewrite Hc in H. tauto.
      * unfold handleConnect. by destruct (client_current w).
    + by destruct o.
    + apply onServerMessage_connectionState.
  - intros w Hclient. unfold step. cbn [enabled].
    rewrite bool_decide_eq_true_2 by done.
    repeat split; by eexists.
  - apply table_transitions_taken.
Qed.

Lemma connectionState_transitions_witness :
  let w := mkWorld (Some new_PipecatClient) error None ∅ None [] [] 0 in
  let w' := mkWorld (Some new_PipecatClient) idle None ∅ None [] [] 0 in
  step ev_onDisconnected w = Some w' ∧
  client_current w ≠ None ∧
  connectionState w' ∈ [idle; connecting; connected; error] ∧
  connectionState w' = idle ∧
  is_Some (step ev_onDisconnected w).
Proof.
  assert (Hclient : client_current
            (mkWorld (Some new_PipecatClient) error None ∅ None [] [] 0)
            ≠ None) by discriminate.
  split; [reflexivity |]. split; [exact Hclient |].
  destruct connectionState_transitions as (Hstep & Henabled & _).
  destruct (Hstep ev_onDisconnected
              (mkWorld (Some new_PipecatClient) error None ∅ None [] [] 0)
              (mkWorld (Some new_PipecatClient) idle None ∅ None [] [] 0)
              eq_refl) as [Hin Heq].
  split; [exact Hin |]. split; [exact Heq |].
  exact (proj1 (proj2 (Henabled _ Hclient))).
Defined.

(** C5, as the specification words it, fails: the session opens, the
    transport reports an error and then closes; the disconnected
    notification takes the connection state from [error] to [idle], which
    is not a transition of the table. *)
Lemma transition_outside_table :
  ¬ (∀ (es : list Event) (e : Event) (w w' : World),
       run es (initial None) = Some w →
       step e w = Some w' →
       connectionState w' = connectionState w ∨
       table_transition (connectionState w) (connectionState w') = true).
Proof.
  intros H.
  pose (es := [ev_mount; ev_click; ev_onConnected;
               ev_connect_settled fulfilled; ev_onError]).
  pose (w := mkWorld (Some new_PipecatClient) error None ∅ None []
               [call_connect "ws://localhost:8000/voice"] 0).
  assert (Hrun : run es (initial None) = Some w) by reflexivity.
  assert (Hstep : step ev_onDisconnected w =
                  Some (world_of (onDisconnected w))) by reflexivity.
  destruct (H es ev_onDisconnected w _ Hrun Hstep) as [Hsame | Htable];
    discriminate.
Qed.

(** * Further properties of the router *)

(** The five ways through [onServerMessage]: [open_form] and
    [update_field] with and without payload, [submit_form], anything
    else. *)
Ltac router_cases type payload :=
  unfold onServerMessage, bind; cbn;
  destruct (strict_eq type "open_form");
  [ destruct payload
  | destruct (strict_eq type "update_field");
    [ destruct payload
    | destruct (strict_eq type "submit_form") ] ].

Lemma strict_eq_true (v : option string) (s : string) :
  strict_eq v s = true ↔ v = Some s.
Proof. unfold strict_eq. apply bool_decide_eq_true. Qed.

Lemma deliver_snoc (ms : list Message) (message : Message) (w : World) :
  deliver (ms ++ [message]) w =
  world_of (onServerMessage message (deliver ms w)).
Proof. unfold deliver. by rewrite foldl_snoc. Qed.

(** X1.  [onServerMessage] throws exactly when the message has no payload
    and its type is [open_form] or [update_field]; [submit_form] and
    unknown types never read the payload.  When it throws, it has printed
    the message and called no setter: everything but the console is as
    before. *)
Theorem router_throws_only_without_payload :
  ∀ (message : Message) (w : World),
    (returns (onServerMessage message w) = false ↔
       message_payload message = None ∧
       (message_type message = Some "open_form" ∨
        message_type message = Some "update_field")) ∧
    (returns (onServerMessage message w) = false →
       world_of (onServerMessage message w) =
       mkWorld (client_current w) (connectionState w) (formFields w)
         (formValues w) (NEXT_PUBLIC_PIPECAT_URL w)
         (console w ++ [log_received message]) (calls w) (pending w)).
Proof.
  intros [type payload] w. cbn [message_type message_payload].
  destruct (strict_eq type "open_form") eqn:Ho;
    [apply strict_eq_true in Ho as -> |];
    [| destruct (strict_eq type "update_field") eqn:Hu;
       [apply strict_eq_true in Hu as -> |]].
  - destruct payload; cbn; split; try done; intuition (auto; discriminate).
  - destruct payload; cbn; split; try done; intuition (auto; discriminate).
  - assert (type ≠ Some "open_form") as Ho'
      by (intros ->; by rewrite (proj2 (strict_eq_true _ _)) in Ho).
    assert (type ≠ Some "update_field") as Hu'
      by (intros ->; by rewrite (proj2 (strict_eq_true _ _)) in Hu).
    assert (returns (onServerMessage (mkMessage type payload) w) = true)
      as Hret.
    { unfold onServerMessage, bind; cbn. rewrite Ho, Hu.
      by destruct (strict_eq type "submit_form"). }
    rewrite Hret. split; [| done]. split; [done |].
    intros [_ [H | H]]; contradiction.
Qed.

Lemma router_throws_only_without_payload_witness :
  let message := mkMessage (Some "update_field") None in
  let w := initial None in
  returns (onServerMessage message w) = false ∧
  world_of (onServerMessage message w) =
  mkWorld None idle None ∅ None [log_received message] [] 0.
Proof.
  assert (H : returns (onServerMessage (mkMessage (Some "update_field") None)
                         (initial None)) = false) by reflexivity.
  split; [exact H |].
  exact (proj2 (router_throws_only_without_payload
                  (mkMessage (Some "update_field") None) (initial None)) H).
Defined.

(** X2.  Updates of two different field names commute: handled in either
    order they leave the same field values, form definition and connection
    state. *)
Theorem update_field_commute :
  ∀ (w : World) (n1 v1 n2 v2 : string) (rest1 rest2 : Payload),
    n1 ≠ n2 →
    let a := update_field n1 v1 rest1 in
    let b := update_field n2 v2 rest2 in
    formValues (deliver [a; b] w) = formValues (deliver [b; a] w) ∧
    formFields (deliver [a; b] w) = formFields (deliver [b; a] w) ∧
    connectionState (deliver [a; b] w) = connectionState (deliver [b; a] w).
Proof.
  intros w n1 v1 n2 v2 rest1 rest2 Hne. cbn.
  repeat split. by apply insert_insert_ne.
Qed.

Lemma update_field_commute_witness :
  let a := update_field "email" "a@b.com" no_payload in
  let b := update_field "phone" "555" no_payload in
  "email" ≠ "phone" ∧
  formValues (deliver [a; b] (initial None)) =
  formValues (deliver [b; a] (initial None)).
Proof.
  assert (Hne : "email" ≠ "phone") by discriminate.
  split; [exact Hne |].
  exact (proj1 (update_field_commute (initial None) "email" "a@b.com"
                  "phone" "555" no_payload no_payload Hne)).
Defined.

(** X3.  The last update of a field name wins: two updates of the same
    name leave the field values that the second alone would leave. *)
Theorem update_field_last_wins :
  ∀ (w : World) (n v1 v2 : string) (rest1 rest2 : Payload),
    formValues (deliver [update_field n v1 rest1; update_field n v2 rest2] w) =
    formValues (deliver [update_field n v2 rest2] w).
Proof. intros. cbn. apply insert_insert_eq. Qed.

(** X4.  A form session: after [open_form(fields)] followed by any
    sequence of updates, whatever the state before, the form definition is
    [fields] and the field values hold exactly the names updated since,
    each with its latest value. *)
Theorem open_form_then_updates :
  ∀ (w : World) (fs : list FormField) (rest : Payload)
    (l : list (string * string)),
    let ms := open_form fs rest
              :: ((λ nv, update_field nv.1 nv.2 rest) <$> l) in
    formFields (deliver ms w) = Some fs ∧
    formValues (deliver ms w) = list_to_map (reverse l).
Proof.
  intros w fs rest l. cbn zeta.
  induction l as [| [n v] l IH] using rev_ind.
  - split; reflexivity.
  - rewrite fmap_app, app_comm_cons. cbn [fmap list_fmap].
    rewrite deliver_snoc. destruct IH as [IHf IHv].
    rewrite onServerMessage_update_field. cbn [world_of formFields formValues].
    rewrite reverse_snoc, list_to_map_cons. cbn [fst snd].
    split; [exact IHf | by rewrite IHv].
Qed.

(** X5.  A server message never reaches the client: whatever its type and
    payload, the handler calls neither [connect] nor [disconnect], leaves
    the client handle, the pending connects and the configured URL alone,
    and only adds to the console. *)
Theorem server_message_touches_only_form :
  ∀ (message : Message) (w : World),
    let w' := world_of (onServerMessage message w) in
    calls w' = calls w ∧
    client_current w' = client_current w ∧
    pending w' = pending w ∧
    NEXT_PUBLIC_PIPECAT_URL w' = NEXT_PUBLIC_PIPECAT_URL w ∧
    console w `prefix_of` console w'.
Proof.
  intros [type payload] w. cbn zeta.
  router_cases type payload; cbn; repeat split;
    rewrite <- ?app_assoc; by eexists.
Qed.

(** X6.  The draft's router and the current one leave the same state on
    every message and fail on the same messages.  When the draft's callback
    returns with the state updated, the current one returns too, with the
    same connection state, form definition, field values and client calls.
    On [open_form] without payload both throw from the callback.  On
    [update_field] without payload the current one throws from the
    callback, while the draft's callback returns and its updater throws
    when React renders; neither has changed the state. *)
Theorem draft_router_agrees :
  ∀ (message : Message) (w : World),
    let c := onServerMessage message w in
    match VoiceClientDraft.onServerMessage message w with
    | VoiceClientDraft.returned d =>
        returns c = true ∧
        connectionState d = connectionState (world_of c) ∧
        formFields d = formFields (world_of c) ∧
        formValues d = formValues (world_of c) ∧
        calls d = calls (world_of c)
    | VoiceClientDraft.thrown _ d =>
        returns c = false ∧
        message_type message = Some "open_form" ∧
        message_payload message = None ∧
        d = world_of c
    | VoiceClientDraft.render_throws _ d =>
        returns c = false ∧
        message_type message = Some "update_field" ∧
        message_payload message = None ∧
        d = world_of c
    end.
Proof.
  intros [type payload] w. cbn zeta. cbn [message_type message_payload].
  unfold onServerMessage, VoiceClientDraft.onServerMessage,
    VoiceClientDraft.outcome_of, bind; cbn.
  destruct (strict_eq type "open_form") eqn:Ho.
  { apply strict_eq_true in Ho. destruct payload; cbn; repeat split; done. }
  destruct (strict_eq type "update_field") eqn:Hu.
  { apply strict_eq_true in Hu. destruct payload; cbn; repeat split; done. }
  destruct (strict_eq type "submit_form"); cbn; repeat split.
Qed.

(** * Further properties of the connection handlers *)

Lemma run_invariant (P : World → Prop) :
  (∀ e w w', P w → step e w = Some w' → P w') →
  ∀ es w w', P w → run es w = Some w' → P w'.
Proof.
  intros Hstep es. induction es as [| e es IH]; intros w w' HP Hrun.
  - cbn in Hrun. by injection Hrun as <-.
  - cbn in Hrun. destruct (step e w) as [w1 |] eqn:He; [| discriminate].
    eauto.
Qed.

Lemma onServerMessage_client_and_url (message : Message) (w : World) :
  client_current (world_of (onServerMessage message w)) = client_current w ∧
  NEXT_PUBLIC_PIPECAT_URL (world_of (onServerMessage message w)) =
    NEXT_PUBLIC_PIPECAT_URL w.
Proof.
  destruct message as [type payload].
  router_cases type payload; cbn; by split.
Qed.

(** Once created, the client handle stays. *)
Lemma step_client_current (e : Event) (w w' : World) :
  step e w = Some w' → client_current w ≠ None → client_current w' ≠ None.
Proof.
  intros [_ ->]%step_inv Hc.
  destruct e as [| | o | | | | message]; cbn [handler]; try done.
  - rewrite button_click_cases. destruct (connectionState w); try done.
    + by rewrite handleConnect_client.
    + unfold handleDisconnect, client_disconnect.
      by destruct (client_current w).
    + by rewrite handleConnect_client.
  - by destruct o.
  - by rewrite (proj1 (onServerMessage_client_and_url message w)).
Qed.


(** Until the mount effect has run, a step leaves the first render as it
    is. *)
Lemma step_unmounted (env : option string) (e : Event) (w w' : World) :
  (client_current w = None → w = initial env) →
  step e w = Some w' →
  client_current w' = None → w' = initial env.
Proof.
  intros Hinit Hstep Hnone.
  destruct (client_current w) eqn:Hc.
  - exfalso. apply (step_client_current _ _ _ Hstep); [by rewrite Hc | done].
  - pose proof (Hinit eq_refl) as ->. clear Hinit Hc.
    destruct e as [| | o | | | | message]; cbn in Hstep;
      try discriminate Hstep.
    + injection Hstep as <-. discriminate Hnone.
    + by injection Hstep as <-.
Qed.

(** ** A failed connect *)





(** X7.  Before the mount effect has created the client, nothing the user
    does has any effect: in every run from the first render, as long as
    [client.current] is still [null] the component is exactly as rendered
    first (idle, no form, nothing printed, nothing called). *)
Theorem before_mount_nothing_happens :
  ∀ (env : option string) (es : list Event) (w : World),
    run es (initial env) = Some w →
    client_current w = None →
    w = initial env.
Proof.
  intros env es w Hrun.
  apply (run_invariant (λ w, client_current w = None → w = initial env)
           (step_unmounted env) es (initial env) w); done.
Qed.

Lemma before_mount_nothing_happens_witness :
  world_of (button_click (world_of (button_click (initial None)))) =
  initial None.
Proof.
  exact (before_mount_nothing_happens None [ev_click; ev_click]
           (world_of (button_click (world_of (button_click (initial None)))))
           eq_refl eq_refl).
Defined.





(** X10.  In the earlier draft a connect that fails while the state is
    [connecting] leaves it [connecting]: the button stays disabled and no
    number of clicks changes anything.  (Only a callback of the client can
    move the draft on.) *)
Theorem draft_failed_connect_keeps_button_disabled :
  ∀ (w : World) (clicks : nat),
    connectionState w = connecting →
    let w' := world_of (VoiceClientDraft.handleConnect_resume rejected w) in
    connectionState w' = connecting ∧
    button_disabled w' = true ∧
    run (replicate clicks ev_click) w' = Some w'.
Proof.
  intros w clicks Hc. cbn zeta.
  set (w' := world_of (VoiceClientDraft.handleConnect_resume rejected w)).
  assert (connectionState w' = connecting) as Hc' by exact Hc.
  split; [exact Hc' |]. split.
  - unfold button_disabled, isConnecting. by rewrite Hc'.
  - induction clicks as [| k IH]; [reflexivity |].
    cbn [replicate run]. unfold step. cbn [enabled handler].
    by rewrite button_click_cases, Hc'.
Qed.

Lemma draft_failed_connect_keeps_button_disabled_witness :
  let w := mkWorld (Some new_PipecatClient) connecting None ∅ None []
             [call_connect "ws://localhost:8000/voice"] 1 in
  let w' := world_of (VoiceClientDraft.handleConnect_resume rejected w) in
  connectionState w = connecting ∧
  connectionState w' = connecting ∧
  run [ev_click; ev_click; ev_click] w' = Some w'.
Proof.
  split; [reflexivity |].
  destruct (draft_failed_connect_keeps_button_disabled
              (mkWorld (Some new_PipecatClient) connecting None ∅ None []
                 [call_connect "ws://localhost:8000/voice"] 1)
              3 eq_refl) as (H1 & _ & H3).
  split; [exact H1 | exact H3].
Defined.

(** * What is shown *)

Import Render.

(** X11.  The progress dots are a bar, not a checklist: with [k] keys in
    the field values and [m] fields, the first [min k m] dots are green and
    the rest grey, whichever fields the keys belong to. *)
Theorem progress_dots_are_prefix :
  ∀ (fs : list FormField) (values : gmap string string),
    dots (FormDisplay fs values) =
    replicate (size values `min` length fs) "#4ade80"
      ++ replicate (length fs - size values) "#d1d5db".
Proof.
  intros fs values. apply list_eq. intros i. cbn [dots FormDisplay].
  rewrite list_lookup_imap.
  destruct (fs !! i) as [field |] eqn:Hi; cbn.
  - apply lookup_lt_Some in Hi.
    case_bool_decide as Hlt.
    + rewrite lookup_app_l by (rewrite length_replicate; lia).
      symmetry. apply lookup_replicate_2. lia.
    + rewrite lookup_app_r by (rewrite length_replicate; lia).
      rewrite length_replicate.
      symmetry. apply lookup_replicate_2. lia.
  - apply lookup_ge_None in Hi.
    symmetry. apply lookup_ge_None.
    rewrite length_app, !length_replicate. lia.
Qed.

(** X12.  The "Completed" number counts keys, not fields: an
    [update_field(name, value)] raises it by one exactly when [name] had no
    entry yet, whether or not the form has a field of that name and whether
    or not [value] is empty; the total stays the number of fields. *)
Theorem completed_counts_keys :
  ∀ (w : World) (fs : list FormField) (n v : string) (rest : Payload),
    let w' := world_of (onServerMessage (update_field n v rest) w) in
    completed (FormDisplay fs (formValues w')) =
      match formValues w !! n with
      | Some _ => completed (FormDisplay fs (formValues w))
      | None => S (completed (FormDisplay fs (formValues w)))
      end ∧
    total (FormDisplay fs (formValues w')) = length fs.
Proof.
  intros w fs n v rest. cbn zeta.
  rewrite onServerMessage_update_field. cbn.
  split; [| done].
  destruct (formValues w !! n) eqn:Hn.
  - by apply map_size_insert_Some.
  - by apply map_size_insert_None.
Qed.

(** X13.  After [update_field(name, value)] every input of a field called
    [name] shows [value] and is drawn as filled exactly when [value] is not
    empty; the inputs of all other fields are as before. *)
Theorem update_field_shown :
  ∀ (w : World) (fs : list FormField) (n v : string) (rest : Payload)
    (i : nat) (field : FormField),
    fs !! i = Some field →
    let w' := world_of (onServerMessage (update_field n v rest) w) in
    inputs (FormDisplay fs (formValues w')) !! i =
      if bool_decide (name field = n)
      then Some (mkInput n (label field) (type field) (js_string v)
                   (if bool_decide (v = EmptyString)
                    then "1px solid #d1d5db" else "1px solid #86efac")
                   (if bool_decide (v = EmptyString)
                    then "#f9fafb" else "#f0fdf4"))
      else inputs (FormDisplay fs (formValues w)) !! i.
Proof.
  intros w fs n v rest i field Hi. cbn zeta.
  rewrite onServerMessage_update_field. cbn.
  rewrite !list_lookup_fmap, Hi. cbn.
  case_bool_decide as Hn.
  - subst n. unfold get, or_empty. rewrite lookup_insert_eq. cbn.
    case_bool_decide as Hv; cbn; [by rewrite Hv | done].
  - unfold get. by rewrite lookup_insert_ne.
Qed.

Lemma update_field_shown_witness :
  inputs (FormDisplay [email_field]
            (formValues (world_of (onServerMessage
               (update_field "email" "a@b.com" no_payload) (initial None)))))
    !! 0 =
  Some (mkInput "email" "Email" "email" (js_string "a@b.com")
          "1px solid #86efac" "#f0fdf4").
Proof.
  exact (update_field_shown (initial None) [email_field] "email" "a@b.com"
           no_payload 0 email_field eq_refl).
Defined.

(** X14.  A field without an entry in the field values is shown empty and
    unfilled, unless its name is one every object inherits (such as
    [constructor] or [toString]): then the lookup finds the inherited
    property and the input is drawn as filled although nothing was
    received for it. *)
Theorem input_without_value :
  ∀ (fs : list FormField) (values : gmap string string) (i : nat)
    (field : FormField),
    fs !! i = Some field →
    values !! name field = None →
    inputs (FormDisplay fs values) !! i =
      Some (if bool_decide (name field ∈ Object_prototype)
            then mkInput (name field) (label field) (type field)
                   (js_inherited (name field))
                   "1px solid #86efac" "#f0fdf4"
            else mkInput (name field) (label field) (type field)
                   (js_string EmptyString)
                   "1px solid #d1d5db" "#f9fafb").
Proof.
  intros fs values i field Hi Hnone. cbn.
  rewrite list_lookup_fmap, Hi. cbn.
  unfold get, or_empty. rewrite Hnone.
  by case_bool_decide.
Qed.

Lemma input_without_value_witness :
  inputs (FormDisplay [email_field; mkFormField "toString" "Text" "text"] ∅) =
  [mkInput "email" "Email" "email" (js_string EmptyString)
     "1px solid #d1d5db" "#f9fafb";
   mkInput "toString" "Text" "text" (js_inherited "toString")
     "1px solid #86efac" "#f0fdf4"].
Proof.
  apply list_eq. intros [| [| i]]; [| | reflexivity].
  - exact (input_without_value
             [email_field; mkFormField "toString" "Text" "text"] ∅ 0
             email_field eq_refl eq_refl).
  - exact (input_without_value
             [email_field; mkFormField "toString" "Text" "text"] ∅ 1
             (mkFormField "toString" "Text" "text") eq_refl eq_refl).
Defined.

(** X15.  The button says what a click does: while connecting it reads
    "Connecting...", is disabled, and a click changes nothing; while
    connected it reads "Disconnect" and a click runs [handleDisconnect];
    otherwise it reads "Connect" and a click runs [handleConnect]. *)
Theorem button_label_matches_action :
  ∀ w : World,
    match connectionState w with
    | connecting =>
        button_label (render w) = "Connecting..." ∧
        button_is_disabled (render w) = true ∧
        button_cursor (render w) = "not-allowed" ∧
        button_click w = Return tt w
    | connected =>
        button_label (render w) = "Disconnect" ∧
        button_is_disabled (render w) = false ∧
        button_cursor (render w) = "pointer" ∧
        button_click w = handleDisconnect w
    | idle | error =>
        button_label (render w) = "Connect" ∧
        button_is_disabled (render w) = false ∧
        button_cursor (render w) = "pointer" ∧
        button_click w = handleConnect w
    end.
Proof.
  intros w. rewrite button_click_cases.
  unfold render, button_disabled, isConnecting, isConnected.
  destruct (connectionState w); cbn; repeat split.
Qed.

(** X16.  After the disconnected notification the page is the page of the
    first render, whatever was on it before: "Ready to Connect", a
    "Connect" button, the how-to-use panel, no form, no error message. *)
Theorem render_after_disconnect_is_first_render :
  ∀ (w : World) (env : option string),
    render (world_of (onDisconnected w)) = render (initial env) ∧
    render (initial env) =
      mkView true "#9ca3af" "Ready to Connect" "Connect" false "pointer"
             "#3b82f6" false false None.
Proof. intros w env. split; reflexivity. Qed.

(** X18.  A double click connects once: from [idle] or [error], with the
    client created, the first click sets [connecting] and asks the client
    to connect; the second finds the button disabled and changes
    nothing. *)
Theorem double_click_connects_once :
  ∀ w : World,
    client_current w ≠ None →
    connectionState w = idle ∨ connectionState w = error →
    run [ev_click; ev_click] w = run [ev_click] w ∧
    (calls <$> run [ev_click; ev_click] w) =
      Some (calls w ++ [call_connect (pipecatUrl w)]).
Proof.
  intros w Hclient Hc. cbn [run]. unfold step. cbn [enabled handler].
  assert (button_click w = handleConnect w) as ->
    by (rewrite button_click_cases; by destruct Hc as [-> | ->]).
  rewrite (handleConnect_client _ Hclient). cbn [world_of].
  by rewrite button_click_cases.
Qed.

Lemma double_click_connects_once_witness :
  let w := mkWorld (Some new_PipecatClient) error None ∅ None [] [] 0 in
  client_current w ≠ None ∧
  (calls <$> run [ev_click; ev_click] w) =
    Some [call_connect "ws://localhost:8000/voice"].
Proof.
  assert (Hc : client_current
                 (mkWorld (Some new_PipecatClient) error None ∅ None [] [] 0)
               ≠ None) by discriminate.
  split; [exact Hc |].
  exact (proj2 (double_click_connects_once
                  (mkWorld (Some new_PipecatClient) error None ∅ None [] [] 0)
                  Hc (or_intror eq_refl))).
Defined.

(** X19.  An [open_form] with an empty list of fields still opens a form:
    an empty array is truthy, so the how-to-use panel and the waiting hint
    go away and a form with no inputs, "0 of 0", and no dots is shown. *)
Theorem open_form_without_fields_shows_empty_form :
  ∀ (w : World) (rest : Payload),
    let v := render (world_of (onServerMessage (open_form [] rest) w)) in
    form v = Some (mkFormView [] 0 0 []) ∧
    how_to_use v = false ∧
    waiting v = false.
Proof.
  intros w rest. cbn zeta.
  rewrite onServerMessage_open_form.
  unfold render, isFormActive, isConnected. cbn.
  repeat split. apply andb_false_r.
Qed.
